(** * simple-timer: the SimpleTimer state machine of src/simple-timer-class.js

    A shallow embedding of the [SimpleTimer] class together with the three
    pieces of the JavaScript runtime it talks to:
    - the Number type, as IEEE 754 binary64 values ([spec_float]), for
      [Number.isInteger] and the comparison [timeout < 1] of the constructor;
    - [Promise], as a heap of settle-once cells;
    - [node:events] [EventEmitter] and the [setTimeout]/[clearTimeout] table.

    Methods are written in a state-and-exception monad over the world made of
    the instance's private fields and that runtime. *)

From Stdlib Require Import ZArith Bool String Lia.
From Stdlib Require Import Floats.SpecFloat.
From stdpp Require Import base option list.

Local Open Scope Z_scope.

(** ** JavaScript values and the Number type *)

(** Binary64: 53 bits of precision, infinities at exponent 1024. *)
Definition prec : Z := 53.
Definition emax : Z := 1024.

(** The well-formed doubles: canonical mantissa and bounded exponent. *)
Definition is_double (n : spec_float) : bool := valid_binary prec emax n.

(** The Number [1], i.e. [2^52 * 2^-52] in canonical form. *)
Definition one : spec_float := S754_finite false 4503599627370496 (-52).

(** The language's values, by type; objects (arrays among them) and symbols
    by reference. *)
Inductive Value : Type :=
  | Undefined
  | Null
  | Boolean (b : bool)
  | Number (n : spec_float)
  | BigInt (i : Z)
  | String (s : string)
  | SymbolValue (ref : nat)
  | Object (ref : nat).

(** The mathematical value of a Number when that value is an integer:
    [(-1)^s * m * 2^e] is an integer iff [e >= 0] or [2^(-e)] divides [m].
    NaN and the infinities have none. *)
Definition integer_value (n : spec_float) : option Z :=
  match n with
  | S754_zero _ => Some 0
  | S754_finite s m e =>
      let signed (z : Z) := if s then - z else z in
      if 0 <=? e then Some (signed (Z.pos m * 2 ^ e))
      else if Z.pos m mod 2 ^ (- e) =? 0 then Some (signed (Z.pos m / 2 ^ (- e)))
      else None
  | S754_infinity _ | S754_nan => None
  end.

(** [Number.isInteger(v)] (ECMA-262 IsIntegralNumber): false when [v] is not
    a Number, false when it is not finite, false when its value has a
    fractional part. *)
Definition Number_isInteger (v : Value) : bool :=
  match v with
  | Number n => match integer_value n with Some _ => true | None => false end
  | _ => false
  end.

(** [a < b] on two Numbers (false as soon as one of them is NaN). *)
Definition Number_lessThan (a b : spec_float) : bool := SFltb a b.

(** ** The timer's own data *)

(** [static #SET = Symbol("SET")] and its three siblings. *)
Inductive Symbol : Type := SET | RUNNING | DONE | CANCELLED.

(** The four classes of src/simple-timer-errors.js. *)
Inductive Error : Type :=
  | ERROR_SIMPLE_TIMER_TIMEOUT_TYPE_INVALID
  | ERROR_SIMPLE_TIMER_TIMEOUT_OUT_OF_BOUNDS
  | ERROR_SIMPLE_TIMER_NOT_IN_SET_OR_RUNNING_STATES
  | ERROR_SIMPLE_TIMER_NOT_RUNNING.

(** How a call ends: with a value or with a thrown error. *)
Inductive Completion (A : Type) : Type :=
  | Normal (a : A)
  | Throw (e : Error).
Arguments Normal {A} a.
Arguments Throw {A} e.

Definition PromiseRef : Type := nat.
Definition TimeoutRef : Type := nat.

(** A promise is pending or fulfilled with a state symbol (the timer never
    rejects). *)
Inductive PromiseState : Type :=
  | Pending
  | Fulfilled (v : Symbol).

(** The two arrow functions that [start()] registers with [once]; each closes
    over the [resolve] function of the promise being created. *)
Inductive Listener : Type :=
  | TimerUpListener (resolve : PromiseRef)
  | TimerCancelledListener (resolve : PromiseRef).

(** An emitter holds its [once] registrations in registration order. *)
Definition EventEmitter : Type := list (string * Listener).

(** The only callback handed to [setTimeout]:
    [() => this.#timerEmitter.emit("timerup")]. *)
Inductive Callback : Type := EmitTimerUp.

(** The private fields of an instance. [None] is JavaScript's [null]. *)
Record SimpleTimer : Type := mkTimer {
  timerTimeout : spec_float;
  timerState : Symbol;
  timerEmitter : EventEmitter;
  timerPromise : option PromiseRef;
  timerHandle : option TimeoutRef
}.

(** The runtime: the promise heap, the table of pending timeouts (handle,
    callback, delay), the next fresh handle, and a log of every call of a
    promise's [resolve] function, in call order. *)
Record Env : Type := mkEnv {
  promises : list PromiseState;
  timeouts : list (TimeoutRef * Callback * spec_float);
  nextTimeout : TimeoutRef;
  resolveCalls : list (PromiseRef * Symbol)
}.

Record World : Type := mkWorld {
  this : SimpleTimer;
  env : Env
}.

Definition emptyEnv : Env := mkEnv [] [] 0%nat [].

(** ** The monad of methods: state passing with exceptions.
    A thrown error carries the world as it was when the error was thrown, so
    a mutation made before a [throw] would stay visible. *)
Definition M (A : Type) : Type := World -> Completion A * World.

Definition ret {A} (a : A) : M A := fun w => (Normal a, w).

Definition throw {A} (e : Error) : M A := fun w => (Throw e, w).

Definition bind {A B} (c : M A) (k : A -> M B) : M B :=
  fun w =>
    match c w with
    | (Normal a, w') => k a w'
    | (Throw e, w') => (Throw e, w')
    end.

Notation "x <- c ;; k" := (bind c (fun x => k))
  (at level 100, c at next level, right associativity).
Notation "c ;;; k" := (bind c (fun _ => k))
  (at level 100, right associativity).

Definition read {A} (f : World -> A) : M A := fun w => (Normal (f w), w).

Definition update (f : World -> World) : M unit := fun w => (Normal tt, f w).

(** Field assignments [this.#field = v]. *)
Definition set_timerState (s : Symbol) (w : World) : World :=
  let t := this w in
  mkWorld (mkTimer (timerTimeout t) s (timerEmitter t) (timerPromise t) (timerHandle t)) (env w).

Definition set_timerEmitter (em : EventEmitter) (w : World) : World :=
  let t := this w in
  mkWorld (mkTimer (timerTimeout t) (timerState t) em (timerPromise t) (timerHandle t)) (env w).

Definition set_timerPromise (p : option PromiseRef) (w : World) : World :=
  let t := this w in
  mkWorld (mkTimer (timerTimeout t) (timerState t) (timerEmitter t) p (timerHandle t)) (env w).

Definition set_timerHandle (h : option TimeoutRef) (w : World) : World :=
  let t := this w in
  mkWorld (mkTimer (timerTimeout t) (timerState t) (timerEmitter t) (timerPromise t) h) (env w).

Definition set_env (e : Env) (w : World) : World := mkWorld (this w) e.

(** The two event names. *)
Definition timerup : string := "timerup"%string.
Definition timercancelled : string := "timercancelled"%string.

(** ** The runtime's operations *)

(** [new Promise(executor)]: allocates a pending cell; its index is the
    reference, and stands for its [resolve] function too. *)
Definition newPromise : M PromiseRef :=
  fun w =>
    let e := env w in
    let p := length (promises e) in
    (Normal p,
     set_env (mkEnv (promises e ++ [Pending]) (timeouts e) (nextTimeout e) (resolveCalls e)) w).

(** [resolve(v)]: settles a pending promise; on a settled one it does
    nothing. Every call is logged. *)
Definition resolve (p : PromiseRef) (v : Symbol) : M unit :=
  update (fun w =>
    let e := env w in
    let cells :=
      match promises e !! p with
      | Some Pending => <[p := Fulfilled v]> (promises e)
      | _ => promises e
      end in
    set_env (mkEnv cells (timeouts e) (nextTimeout e) (resolveCalls e ++ [(p, v)])) w).

(** [setTimeout(cb, delay)]: registers the callback under a fresh handle. *)
Definition setTimeout (cb : Callback) (delay : spec_float) : M TimeoutRef :=
  fun w =>
    let e := env w in
    let h := nextTimeout e in
    (Normal h,
     set_env (mkEnv (promises e) (timeouts e ++ [(h, cb, delay)]) (S h) (resolveCalls e)) w).

(** [clearTimeout(h)]: drops the registration; nothing happens for [null] or
    for a handle that is no longer pending. *)
Definition clearTimeout (h : option TimeoutRef) : M unit :=
  update (fun w =>
    let e := env w in
    match h with
    | None => w
    | Some h =>
        set_env (mkEnv (promises e)
                       (List.filter (fun r => negb (Nat.eqb r.1.1 h)) (timeouts e))
                       (nextTimeout e) (resolveCalls e)) w
    end).

(** [emitter.once(name, listener)]. *)
Definition once (name : string) (l : Listener) : M unit :=
  update (fun w => set_timerEmitter (timerEmitter (this w) ++ [(name, l)]) w).

(** The body of the listeners (lines 129-134 and 136-141). *)
Definition run_listener (l : Listener) : M unit :=
  match l with
  | TimerUpListener resolve_fn =>
      update (set_timerHandle None) ;;;
      update (set_timerPromise None) ;;;
      update (set_timerState DONE) ;;;
      s <- read (fun w => timerState (this w)) ;;
      resolve resolve_fn s
  | TimerCancelledListener resolve_fn =>
      update (set_timerHandle None) ;;;
      update (set_timerPromise None) ;;;
      update (set_timerState CANCELLED) ;;;
      s <- read (fun w => timerState (this w)) ;;
      resolve resolve_fn s
  end.

Fixpoint run_listeners (ls : list Listener) : M unit :=
  match ls with
  | [] => ret tt
  | l :: ls' => run_listener l ;;; run_listeners ls'
  end.

(** [emitter.emit(name)], synchronous: the listeners registered for [name] are
    called in registration order, and each [once] registration is removed
    when it is called. The timer's listeners never touch the emitter, so the
    removals are done up front. *)
Definition emit (name : string) : M unit :=
  em <- read (fun w => timerEmitter (this w)) ;;
  update (set_timerEmitter (List.filter (fun r => negb (String.eqb r.1 name)) em)) ;;;
  run_listeners (map snd (List.filter (fun r => String.eqb r.1 name) em)).

Definition run_callback (cb : Callback) : M unit :=
  match cb with
  | EmitTimerUp => emit timerup
  end.

(** ** The class *)

(** [constructor(timeout)]. [Number.isInteger] holds of Numbers only, so the
    comparison [timeout < 1] is only ever evaluated on a Number. The
    constructor does not touch the runtime beyond creating its own emitter. *)
Definition constructor (timeout : Value) (e : Env) : Completion SimpleTimer * Env :=
  if negb (Number_isInteger timeout) then
    (Throw ERROR_SIMPLE_TIMER_TIMEOUT_TYPE_INVALID, e)
  else
    match timeout with
    | Number n =>
        if Number_lessThan n one then
          (Throw ERROR_SIMPLE_TIMER_TIMEOUT_OUT_OF_BOUNDS, e)
        else
          (Normal (mkTimer n SET [] None None), e)
    | _ => (Throw ERROR_SIMPLE_TIMER_TIMEOUT_TYPE_INVALID, e)
    end.

(** [get state()]. *)
Definition state (w : World) : Symbol := timerState (this w).

Definition Symbol_eqb (a b : Symbol) : bool :=
  match a, b with
  | SET, SET | RUNNING, RUNNING | DONE, DONE | CANCELLED, CANCELLED => true
  | _, _ => false
  end.

(** [start()]. The promise executor runs synchronously inside
    [new Promise(...)], before the assignment to [#timerPromise]. *)
Definition start : M (option PromiseRef) :=
  s <- read state ;;
  if Symbol_eqb s RUNNING then
    read (fun w => timerPromise (this w))
  else if negb (Symbol_eqb s SET) then
    throw ERROR_SIMPLE_TIMER_NOT_IN_SET_OR_RUNNING_STATES
  else
    p <- newPromise ;;
    once timerup (TimerUpListener p) ;;;
    once timercancelled (TimerCancelledListener p) ;;;
    update (set_timerPromise (Some p)) ;;;
    d <- read (fun w => timerTimeout (this w)) ;;
    h <- setTimeout EmitTimerUp d ;;
    update (set_timerHandle (Some h)) ;;;
    update (set_timerState RUNNING) ;;;
    read (fun w => timerPromise (this w)).

(** [cancel()]. *)
Definition cancel : M (option PromiseRef) :=
  s <- read state ;;
  if negb (Symbol_eqb s RUNNING) then
    throw ERROR_SIMPLE_TIMER_NOT_RUNNING
  else
    h <- read (fun w => timerHandle (this w)) ;;
    clearTimeout h ;;;
    emit timercancelled ;;;
    read (fun w => timerPromise (this w)).

(** The runtime fires the pending timeout [h]: the registration is consumed
    and its callback runs. *)
Definition fire (h : TimeoutRef) (cb : Callback) : M unit :=
  clearTimeout (Some h) ;;;
  run_callback cb.

(** ** Executions *)

(** What can happen to an instance: a caller calls [start()] or [cancel()]
    (and gets the completion shown), or a timeout that is pending fires. *)
Inductive Label : Type :=
  | CallStart (r : Completion (option PromiseRef))
  | CallCancel (r : Completion (option PromiseRef))
  | TimerFires (h : TimeoutRef).

Inductive step : World -> Label -> World -> Prop :=
  | step_start w :
      step w (CallStart (start w).1) (start w).2
  | step_cancel w :
      step w (CallCancel (cancel w).1) (cancel w).2
  | step_fire w h cb d :
      (h, cb, d) ∈ timeouts (env w) ->
      step w (TimerFires h) (fire h cb w).2.

(** [steps w ls w']: [w'] is reached from [w] through the events [ls]. *)
Inductive steps : World -> list Label -> World -> Prop :=
  | steps_nil w : steps w [] w
  | steps_cons w l w1 ls w2 :
      step w l w1 -> steps w1 ls w2 -> steps w (l :: ls) w2.

(** A runtime in which nothing is pending yet: any promise heap, any next
    handle, no registered timeout and an empty log. *)
Definition idleEnv (ps : list PromiseState) (k : TimeoutRef) : Env := mkEnv ps [] k [].

(** The worlds an instance can be in: built by the constructor in an idle
    runtime, then any sequence of events. *)
Definition created (timeout : Value) (ps : list PromiseState) (k : TimeoutRef) (w : World) : Prop :=
  constructor timeout (idleEnv ps k) = (Normal (this w), env w).

Definition reachable (w : World) : Prop :=
  exists timeout ps k w0 ls, created timeout ps k w0 /\ steps w0 ls w.

(** The world of an instance with timeout [t], created in [idleEnv ps k], when
    its state is [s]. The promise of [start()] is the cell after [ps], its
    timeout has handle [k]. *)
Definition world_in (t : spec_float) (ps : list PromiseState) (k : TimeoutRef) (s : Symbol) : World :=
  let p := length ps in
  match s with
  | SET =>
      mkWorld (mkTimer t SET [] None None) (idleEnv ps k)
  | RUNNING =>
      mkWorld (mkTimer t RUNNING
                 [(timerup, TimerUpListener p); (timercancelled, TimerCancelledListener p)]
                 (Some p) (Some k))
              (mkEnv (ps ++ [Pending]) [(k, EmitTimerUp, t)] (S k) [])
  | DONE =>
      mkWorld (mkTimer t DONE [(timercancelled, TimerCancelledListener p)] None None)
              (mkEnv (ps ++ [Fulfilled DONE]) [] (S k) [(p, DONE)])
  | CANCELLED =>
      mkWorld (mkTimer t CANCELLED [(timerup, TimerUpListener p)] None None)
              (mkEnv (ps ++ [Fulfilled CANCELLED]) [] (S k) [(p, CANCELLED)])
  end.

(** The state diagram: which event takes which state where. *)
Inductive transition : Symbol -> Label -> Symbol -> Prop :=
  | tr_start_set p : transition SET (CallStart (Normal (Some p))) RUNNING
  | tr_start_running p : transition RUNNING (CallStart (Normal (Some p))) RUNNING
  | tr_start_done :
      transition DONE (CallStart (Throw ERROR_SIMPLE_TIMER_NOT_IN_SET_OR_RUNNING_STATES)) DONE
  | tr_start_cancelled :
      transition CANCELLED (CallStart (Throw ERROR_SIMPLE_TIMER_NOT_IN_SET_OR_RUNNING_STATES)) CANCELLED
  | tr_cancel_running : transition RUNNING (CallCancel (Normal None)) CANCELLED
  | tr_cancel_set : transition SET (CallCancel (Throw ERROR_SIMPLE_TIMER_NOT_RUNNING)) SET
  | tr_cancel_done : transition DONE (CallCancel (Throw ERROR_SIMPLE_TIMER_NOT_RUNNING)) DONE
  | tr_cancel_cancelled :
      transition CANCELLED (CallCancel (Throw ERROR_SIMPLE_TIMER_NOT_RUNNING)) CANCELLED
  | tr_fire h : transition RUNNING (TimerFires h) DONE.

(** Replaying a list of events as a function, for running scenarios. *)
Inductive Event : Type := EvStart | EvCancel | EvFire (h : TimeoutRef).

Definition pending_callback (h : TimeoutRef) (w : World) : option Callback :=
  match List.filter (fun r => Nat.eqb r.1.1 h) (timeouts (env w)) with
  | (_, cb, _) :: _ => Some cb
  | [] => None
  end.

Definition run_event (ev : Event) (w : World) : World :=
  match ev with
  | EvStart => (start w).2
  | EvCancel => (cancel w).2
  | EvFire h =>
      match pending_callback h w with
      | Some cb => (fire h cb w).2
      | None => w
      end
  end.

Definition run_events (evs : list Event) (w : World) : World :=
  foldl (fun w ev => run_event ev w) w evs.

(** [new SimpleTimer(200)] in an empty runtime. *)
Definition two_hundred : spec_float := S754_finite false 7036874417766400 (-45).

Definition timer200 : World := mkWorld (mkTimer two_hundred SET [] None None) emptyEnv.

(** The same instance after [start()]. *)
Definition running200 : World := run_events [EvStart] timer200.

(** The value a whole-number input stands for; [None] for every input that
    is not a whole number (non-Numbers, NaN, infinities, fractions). *)
Definition whole_number (x : Value) : option Z :=
  match x with
  | Number n => integer_value n
  | _ => None
  end.

(** Inputs the runtime can really pass: a Number is a well-formed double. *)
Definition well_formed (x : Value) : Prop :=
  match x with
  | Number n => is_double n = true
  | _ => True
  end.

(** Inputs that count as below 1: a Number that compares below 1, and every
    value that is not a Number. *)
Definition below_one (x : Value) : bool :=
  match x with
  | Number n => Number_lessThan n one
  | _ => true
  end.

(** [-0.5], i.e. [-(2^52) * 2^-53]. *)
Definition minus_half : spec_float := S754_finite true 4503599627370496 (-53).

(** ** The error classes of src/simple-timer-errors.js *)

(** The built-in classes they extend. *)
Inductive BuiltinError : Type :=
  | Builtin_Error
  | Builtin_TypeError
  | Builtin_RangeError.

(** [TypeError] and [RangeError] inherit from [Error]. *)
Definition builtin_parent (b : BuiltinError) : option BuiltinError :=
  match b with
  | Builtin_Error => None
  | Builtin_TypeError | Builtin_RangeError => Some Builtin_Error
  end.

Definition BuiltinError_eqb (a b : BuiltinError) : bool :=
  match a, b with
  | Builtin_Error, Builtin_Error
  | Builtin_TypeError, Builtin_TypeError
  | Builtin_RangeError, Builtin_RangeError => true
  | _, _ => false
  end.

(** [class C extends B]. *)
Definition error_extends (c : Error) : BuiltinError :=
  match c with
  | ERROR_SIMPLE_TIMER_TIMEOUT_TYPE_INVALID => Builtin_TypeError
  | ERROR_SIMPLE_TIMER_TIMEOUT_OUT_OF_BOUNDS => Builtin_RangeError
  | ERROR_SIMPLE_TIMER_NOT_IN_SET_OR_RUNNING_STATES => Builtin_Error
  | ERROR_SIMPLE_TIMER_NOT_RUNNING => Builtin_Error
  end.

(** The argument of [super(...)], which becomes the [message] property. *)
Definition error_message (c : Error) : string :=
  match c with
  | ERROR_SIMPLE_TIMER_TIMEOUT_TYPE_INVALID =>
      "The simple timer timeout type is not valid, it should be an integer."%string
  | ERROR_SIMPLE_TIMER_TIMEOUT_OUT_OF_BOUNDS =>
      "The simple timer timeout is out of bounds, it should be between 1 ms and infinity."%string
  | ERROR_SIMPLE_TIMER_NOT_IN_SET_OR_RUNNING_STATES =>
      "The simple timer is not in the SET or RUNNING states."%string
  | ERROR_SIMPLE_TIMER_NOT_RUNNING =>
      "The simple timer is not in the RUNNING state."%string
  end.

(** [this.name = Object.getPrototypeOf(this).constructor.name]: the name of
    the class the object was built with. *)
Definition error_name (c : Error) : string :=
  match c with
  | ERROR_SIMPLE_TIMER_TIMEOUT_TYPE_INVALID => "ERROR_SIMPLE_TIMER_TIMEOUT_TYPE_INVALID"%string
  | ERROR_SIMPLE_TIMER_TIMEOUT_OUT_OF_BOUNDS => "ERROR_SIMPLE_TIMER_TIMEOUT_OUT_OF_BOUNDS"%string
  | ERROR_SIMPLE_TIMER_NOT_IN_SET_OR_RUNNING_STATES =>
      "ERROR_SIMPLE_TIMER_NOT_IN_SET_OR_RUNNING_STATES"%string
  | ERROR_SIMPLE_TIMER_NOT_RUNNING => "ERROR_SIMPLE_TIMER_NOT_RUNNING"%string
  end.

(** [new C() instanceof B] for a built-in [B]: [B] is on the prototype chain
    of [C], which is [C]'s parent and then that parent's parent. *)
Definition instanceOf (c : Error) (b : BuiltinError) : bool :=
  BuiltinError_eqb (error_extends c) b ||
  match builtin_parent (error_extends c) with
  | Some g => BuiltinError_eqb g b
  | None => false
  end.

(** ** Whole executions *)

(** An execution of the instance built by [new SimpleTimer(x)] in the idle
    runtime [idleEnv ps k]: the events [ls] lead to the world [w]. *)
Definition execution (x : Value) (ps : list PromiseState) (k : TimeoutRef)
    (ls : list Label) (w : World) : Prop :=
  exists w0, created x ps k w0 /\ steps w0 ls w.

(** The events that deliver a result to the waiting promise: the timeout
    firing, and a [cancel()] that does not throw. *)
Definition delivers (l : Label) : bool :=
  match l with
  | TimerFires _ => true
  | CallCancel (Normal _) => true
  | _ => false
  end.

(** How far an instance is in its life. *)
Definition stage (s : Symbol) : nat :=
  match s with
  | SET => 0
  | RUNNING => 1
  | DONE | CANCELLED => 2
  end.

(** What the promise of [start()] must hold in each state. *)
Definition expected_cell (s : Symbol) : PromiseState :=
  match s with
  | SET | RUNNING => Pending
  | DONE => Fulfilled DONE
  | CANCELLED => Fulfilled CANCELLED
  end.

(** * Numbers *)

Section Doubles.

Lemma digits2_pos_bounds (m : positive) :
  2 ^ (Z.pos (digits2_pos m) - 1) <= Z.pos m < 2 ^ Z.pos (digits2_pos m).
Proof.
  induction m as [m IH | m IH |]; cbn [digits2_pos].
  - rewrite Pos2Z.inj_succ. change (Z.pos m~1) with (2 * Z.pos m + 1).
    replace (Z.succ (Z.pos (digits2_pos m)) - 1) with (Z.succ (Z.pos (digits2_pos m) - 1)) by lia.
    rewrite !Z.pow_succ_r by lia. lia.
  - rewrite Pos2Z.inj_succ. change (Z.pos m~0) with (2 * Z.pos m).
    replace (Z.succ (Z.pos (digits2_pos m)) - 1) with (Z.succ (Z.pos (digits2_pos m) - 1)) by lia.
    rewrite !Z.pow_succ_r by lia. lia.
  - cbn. lia.
Qed.

(** What validity says of a finite double: the exponent is the canonical
    one for the mantissa's width. *)
Lemma is_double_finite (s : bool) (m : positive) (e : Z) :
  is_double (S754_finite s m e) = true ->
  Z.max (Z.pos (digits2_pos m) + e - 53) (-1074) = e /\ e <= 971.
Proof.
  unfold is_double, valid_binary, bounded, canonical_mantissa, fexp, emin, prec, emax.
  intros H. apply andb_prop in H as [Hc Hb].
  apply Z.eqb_eq in Hc. apply Z.leb_le in Hb. lia.
Qed.

(** A mantissa as wide as the precision is at least [2^52]; no valid
    mantissa reaches [2^53]. *)
Lemma mantissa_range (s : bool) (m : positive) (e : Z) :
  is_double (S754_finite s m e) = true ->
  Z.pos m < 2 ^ 53 /\ (-1074 < e -> 2 ^ 52 <= Z.pos m).
Proof.
  intros H. apply is_double_finite in H as [Hc _].
  pose proof (digits2_pos_bounds m) as [Hlo Hhi].
  split.
  - eapply Z.lt_le_trans; [exact Hhi|].
    apply Z.pow_le_mono_r; lia.
  - intros He.
    assert (Z.pos (digits2_pos m) = 53) as Hd by lia.
    rewrite Hd in Hlo. exact Hlo.
Qed.

(** The comparison of the constructor agrees with the order on the
    integers: a whole-number double is below [1] exactly when its value
    is. *)
Lemma lessThan_one_spec (n : spec_float) (z : Z) :
  is_double n = true ->
  integer_value n = Some z ->
  Number_lessThan n one = (z <? 1).
Proof.
  intros Hv Hz. destruct n as [s | s | | s m e]; try discriminate.
  - cbn in Hz. injection Hz as <-. reflexivity.
  - pose proof (mantissa_range _ _ _ Hv) as [Hhi Hlo].
    assert (0 < 2 ^ (- e) \/ e >= 0) as Hpow.
    { destruct (Z_lt_ge_dec e 0); [left; apply Z.pow_pos_nonneg; lia | right; lia]. }
    cbn [integer_value] in Hz.
    destruct s.
    + (* negative: below 1 on both sides *)
      assert (z <= 0) as Hle.
      { destruct (0 <=? e) eqn:He.
        - injection Hz as <-. apply Z.leb_le in He.
          assert (0 < 2 ^ e) by (apply Z.pow_pos_nonneg; lia).
          assert (0 < Z.pos m * 2 ^ e) by (apply Z.mul_pos_pos; lia). lia.
        - destruct (Z.pos m mod 2 ^ (- e) =? 0); [|discriminate].
          injection Hz as <-. apply Z.leb_gt in He.
          assert (0 <= Z.pos m / 2 ^ (- e)) by (apply Z.div_pos; lia). lia. }
      cbn. symmetry. apply Z.ltb_lt. lia.
    + unfold Number_lessThan, SFltb, one, SFcompare.
      destruct (Z.compare_spec e (-52)) as [He | He | He].
      * (* same exponent as 1: the mantissa is at least 2^52 *)
        subst e. specialize (Hlo ltac:(lia)).
        assert ((0 <=? -52) = false) as E0 by reflexivity. rewrite E0 in Hz.
        destruct (Z.pos m mod 2 ^ (- (-52)) =? 0); [|discriminate].
        injection Hz as <-.
        assert (1 <= Z.pos m / 2 ^ (- (-52))) as Hq.
        { apply Z.div_le_lower_bound; [apply Z.pow_pos_nonneg; lia|].
          change (- (-52)) with 52. lia. }
        rewrite Pos.compare_cont_spec. cbn [Pos.switch_Eq].
        replace (Z.pos m / 2 ^ (- (-52)) <? 1) with false by (symmetry; apply Z.ltb_ge; lia).
        destruct (Pos.compare_spec m 4503599627370496) as [Hm | Hm | Hm]; try reflexivity.
        exfalso. apply Pos2Z.pos_lt_pos in Hm.
        change (Z.pos 4503599627370496) with (2 ^ 52) in Hm. lia.
      * (* smaller exponent: the value is below 1, so it is no positive integer *)
        assert ((0 <=? e) = false) as E0 by (apply Z.leb_gt; lia). rewrite E0 in Hz.
        destruct (Z.pos m mod 2 ^ (- e) =? 0) eqn:Hmod; [|discriminate].
        injection Hz as <-.
        assert (2 ^ 53 <= 2 ^ (- e)) by (apply Z.pow_le_mono_r; lia).
        rewrite Z.div_small by lia. reflexivity.
      * (* larger exponent: the value is at least 1 *)
        specialize (Hlo ltac:(lia)).
        destruct (0 <=? e) eqn:E0.
        -- injection Hz as <-. apply Z.leb_le in E0.
           assert (1 <= 2 ^ e) by (pose proof (Z.pow_pos_nonneg 2 e); lia).
           assert (1 * 1 <= Z.pos m * 2 ^ e) by (apply Z.mul_le_mono_nonneg; lia).
           symmetry. apply Z.ltb_ge. lia.
        -- destruct (Z.pos m mod 2 ^ (- e) =? 0); [|discriminate].
           injection Hz as <-. apply Z.leb_gt in E0.
           assert (2 ^ (- e) <= 2 ^ 52) by (apply Z.pow_le_mono_r; lia).
           symmetry. apply Z.ltb_ge.
           apply Z.div_le_lower_bound; [apply Z.pow_pos_nonneg; lia | lia].
Qed.

Lemma isInteger_whole_number (x : Value) :
  Number_isInteger x = match whole_number x with Some _ => true | None => false end.
Proof. destruct x; reflexivity. Qed.

End Doubles.

(** * Construction *)

Section Construction.

Variable e : Env.

Lemma constructor_not_whole (x : Value) :
  whole_number x = None ->
  constructor x e = (Throw ERROR_SIMPLE_TIMER_TIMEOUT_TYPE_INVALID, e).
Proof.
  intros H. unfold constructor. rewrite isInteger_whole_number, H. reflexivity.
Qed.

Lemma constructor_whole (n : spec_float) (z : Z) :
  is_double n = true ->
  integer_value n = Some z ->
  constructor (Number n) e =
    if z <? 1 then (Throw ERROR_SIMPLE_TIMER_TIMEOUT_OUT_OF_BOUNDS, e)
    else (Normal (mkTimer n SET [] None None), e).
Proof.
  intros Hv Hz. unfold constructor.
  rewrite isInteger_whole_number. cbn [whole_number]. rewrite Hz. cbn [negb].
  rewrite (lessThan_one_spec n z Hv Hz). reflexivity.
Qed.

End Construction.

(** C4. For every whole number [t >= 1] (a double [t] whose value is the
    integer [z >= 1]), the constructor succeeds; the new timer is in state
    SET and stores [t] as its timeout; no timeout handle is held and the
    runtime is left as it was, so nothing has been scheduled. *)
Theorem constructor_ok_from_one (t : spec_float) (z : Z) (e : Env) :
  is_double t = true ->
  integer_value t = Some z ->
  1 <= z ->
  exists tm : SimpleTimer,
    constructor (Number t) e = (Normal tm, e) /\
    timerState tm = SET /\
    timerTimeout tm = t /\
    timerHandle tm = None /\
    timerPromise tm = None /\
    timeouts (constructor (Number t) e).2 = timeouts e.
Proof.
  intros Hv Hz Hge.
  pose proof (constructor_whole e t z Hv Hz) as Hc.
  replace (z <? 1) with false in Hc by (symmetry; apply Z.ltb_ge; lia).
  exists (mkTimer t SET [] None None). rewrite Hc. repeat split.
Qed.

Lemma constructor_ok_from_one_witness :
  exists tm : SimpleTimer,
    constructor (Number two_hundred) emptyEnv = (Normal tm, emptyEnv) /\
    timerState tm = SET /\
    timerTimeout tm = two_hundred /\
    timerHandle tm = None /\
    timerPromise tm = None /\
    timeouts (constructor (Number two_hundred) emptyEnv).2 = timeouts emptyEnv.
Proof.
  apply (constructor_ok_from_one two_hundred 200 emptyEnv); [reflexivity | reflexivity | lia].
Defined.

(** C5. The constructor throws ERROR_SIMPLE_TIMER_TIMEOUT_TYPE_INVALID on
    every input that is not a whole number, throws
    ERROR_SIMPLE_TIMER_TIMEOUT_OUT_OF_BOUNDS on every whole number below 1,
    and throws nothing on any other input; so each error is thrown on
    exactly those inputs. *)
Theorem constructor_throws_iff (x : Value) (e : Env) :
  well_formed x ->
  (whole_number x = None ->
     constructor x e = (Throw ERROR_SIMPLE_TIMER_TIMEOUT_TYPE_INVALID, e)) /\
  (forall z, whole_number x = Some z -> z < 1 ->
     constructor x e = (Throw ERROR_SIMPLE_TIMER_TIMEOUT_OUT_OF_BOUNDS, e)) /\
  (forall z, whole_number x = Some z -> 1 <= z ->
     exists tm, constructor x e = (Normal tm, e)) /\
  (forall err, (constructor x e).1 = Throw err ->
     (err = ERROR_SIMPLE_TIMER_TIMEOUT_TYPE_INVALID /\ whole_number x = None) \/
     (err = ERROR_SIMPLE_TIMER_TIMEOUT_OUT_OF_BOUNDS /\
      exists z, whole_number x = Some z /\ z < 1)).
Proof.
  intros Hwf.
  assert (forall z, whole_number x = Some z ->
            constructor x e =
              if z <? 1 then (Throw ERROR_SIMPLE_TIMER_TIMEOUT_OUT_OF_BOUNDS, e)
              else (Normal (mkTimer match x with Number n => n | _ => one end SET [] None None), e))
    as Hwhole.
  { intros z Hz. destruct x as [| | b | n | i | s | r | r]; try discriminate.
    apply constructor_whole; assumption. }
  split; [apply constructor_not_whole|].
  split; [|split].
  - intros z Hz Hlt. rewrite (Hwhole z Hz).
    replace (z <? 1) with true by (symmetry; apply Z.ltb_lt; lia). reflexivity.
  - intros z Hz Hge. rewrite (Hwhole z Hz).
    replace (z <? 1) with false by (symmetry; apply Z.ltb_ge; lia). eauto.
  - intros err Herr. destruct (whole_number x) as [z|] eqn:Hz.
    + rewrite (Hwhole z eq_refl) in Herr. destruct (Z.ltb_spec z 1) as [Hlt | Hge].
      * right. cbn in Herr. injection Herr as <-. eauto.
      * discriminate.
    + rewrite (constructor_not_whole e x Hz) in Herr. cbn in Herr.
      injection Herr as <-. left. split; reflexivity.
Qed.

Lemma constructor_throws_iff_witness :
  constructor (Number minus_half) emptyEnv
    = (Throw ERROR_SIMPLE_TIMER_TIMEOUT_TYPE_INVALID, emptyEnv) /\
  constructor (Number (S754_zero false)) emptyEnv
    = (Throw ERROR_SIMPLE_TIMER_TIMEOUT_OUT_OF_BOUNDS, emptyEnv) /\
  (exists tm, constructor (Number two_hundred) emptyEnv = (Normal tm, emptyEnv)).
Proof.
  split; [|split].
  - exact (proj1 (constructor_throws_iff (Number minus_half) emptyEnv eq_refl) eq_refl).
  - apply (proj1 (proj2 (constructor_throws_iff (Number (S754_zero false)) emptyEnv eq_refl)) 0);
      [reflexivity | lia].
  - apply (proj1 (proj2 (proj2 (constructor_throws_iff (Number two_hundred) emptyEnv eq_refl))) 200);
      [reflexivity | lia].
Defined.

(** C10. The whole-number check comes first: an input that is not a whole
    number and is below 1 (a Number such as -0.5 that compares below 1, or
    any value that is not a Number) makes the constructor throw
    ERROR_SIMPLE_TIMER_TIMEOUT_TYPE_INVALID, never
    ERROR_SIMPLE_TIMER_TIMEOUT_OUT_OF_BOUNDS. *)
Theorem constructor_checks_type_first (x : Value) (e : Env) :
  whole_number x = None ->
  below_one x = true ->
  constructor x e = (Throw ERROR_SIMPLE_TIMER_TIMEOUT_TYPE_INVALID, e) /\
  (constructor x e).1 <> Throw ERROR_SIMPLE_TIMER_TIMEOUT_OUT_OF_BOUNDS.
Proof.
  intros Hx _. rewrite (constructor_not_whole e x Hx). split; [reflexivity | discriminate].
Qed.

Lemma constructor_checks_type_first_witness :
  constructor (Number minus_half) emptyEnv
    = (Throw ERROR_SIMPLE_TIMER_TIMEOUT_TYPE_INVALID, emptyEnv) /\
  (constructor (Number minus_half) emptyEnv).1 <> Throw ERROR_SIMPLE_TIMER_TIMEOUT_OUT_OF_BOUNDS.
Proof.
  apply (constructor_checks_type_first (Number minus_half) emptyEnv); reflexivity.
Defined.

(** * The state machine *)

(** Settling the promise that [start()] allocated after [ps]. *)
Lemma settle_fresh (ps : list PromiseState) (v : Symbol) :
  match (ps ++ [Pending]) !! length ps with
  | Some Pending => <[length ps := Fulfilled v]> (ps ++ [Pending])
  | _ => ps ++ [Pending]
  end = ps ++ [Fulfilled v].
Proof.
  rewrite list_lookup_middle by reflexivity.
  rewrite insert_app_r_alt by lia. rewrite Nat.sub_diag. reflexivity.
Qed.

Section Instance.

(** One instance: its timeout, and the runtime it was created in. *)
Variable t : spec_float.
Variable ps : list PromiseState.
Variable k : TimeoutRef.

(** What each method does in each state. *)
Lemma start_in_SET :
  start (world_in t ps k SET) = (Normal (Some (length ps)), world_in t ps k RUNNING).
Proof. reflexivity. Qed.

Lemma start_in_RUNNING :
  start (world_in t ps k RUNNING) = (Normal (Some (length ps)), world_in t ps k RUNNING).
Proof. reflexivity. Qed.

Lemma start_in_DONE :
  start (world_in t ps k DONE)
    = (Throw ERROR_SIMPLE_TIMER_NOT_IN_SET_OR_RUNNING_STATES, world_in t ps k DONE).
Proof. reflexivity. Qed.

Lemma start_in_CANCELLED :
  start (world_in t ps k CANCELLED)
    = (Throw ERROR_SIMPLE_TIMER_NOT_IN_SET_OR_RUNNING_STATES, world_in t ps k CANCELLED).
Proof. reflexivity. Qed.

Lemma cancel_in_RUNNING :
  cancel (world_in t ps k RUNNING) = (Normal None, world_in t ps k CANCELLED).
Proof.
  unfold cancel, bind, read, clearTimeout, update, emit, bind, state. cbn.
  rewrite Nat.eqb_refl. cbn. rewrite settle_fresh. reflexivity.
Qed.

Lemma cancel_elsewhere (s : Symbol) :
  s <> RUNNING ->
  cancel (world_in t ps k s) = (Throw ERROR_SIMPLE_TIMER_NOT_RUNNING, world_in t ps k s).
Proof. destruct s; intros Hs; try reflexivity. congruence. Qed.

Lemma fire_in_RUNNING :
  fire k EmitTimerUp (world_in t ps k RUNNING) = (Normal tt, world_in t ps k DONE).
Proof.
  unfold fire, bind, clearTimeout, update, run_callback, emit, bind, read. cbn.
  rewrite Nat.eqb_refl. cbn. rewrite settle_fresh. reflexivity.
Qed.

(** Only a running instance has a pending timeout, and it is its own. *)
Lemma pending_in (s : Symbol) (h : TimeoutRef) (cb : Callback) (d : spec_float) :
  (h, cb, d) ∈ timeouts (env (world_in t ps k s)) ->
  s = RUNNING /\ h = k /\ cb = EmitTimerUp /\ d = t.
Proof.
  destruct s; cbn; intros Hin.
  - apply elem_of_nil in Hin. contradiction.
  - apply list_elem_of_singleton in Hin. injection Hin as -> -> ->. auto.
  - apply elem_of_nil in Hin. contradiction.
  - apply elem_of_nil in Hin. contradiction.
Qed.

(** Every event follows the state diagram and leads to the world of the
    state it arrives in. *)
Lemma step_world_in (s : Symbol) (l : Label) (w' : World) :
  step (world_in t ps k s) l w' -> exists s', w' = world_in t ps k s' /\ transition s l s'.
Proof.
  intros Hstep. inversion Hstep as [w Hw | w Hw | w h cb d Hin Hw]; subst.
  - destruct s.
    + rewrite start_in_SET. exists RUNNING. split; [reflexivity | constructor].
    + rewrite start_in_RUNNING. exists RUNNING. split; [reflexivity | constructor].
    + rewrite start_in_DONE. exists DONE. split; [reflexivity | constructor].
    + rewrite start_in_CANCELLED. exists CANCELLED. split; [reflexivity | constructor].
  - destruct s.
    + rewrite cancel_elsewhere by discriminate. exists SET. split; [reflexivity | constructor].
    + rewrite cancel_in_RUNNING. exists CANCELLED. split; [reflexivity | constructor].
    + rewrite cancel_elsewhere by discriminate. exists DONE. split; [reflexivity | constructor].
    + rewrite cancel_elsewhere by discriminate.
      exists CANCELLED. split; [reflexivity | constructor].
  - apply pending_in in Hin as (-> & -> & -> & ->).
    rewrite fire_in_RUNNING. exists DONE. split; [reflexivity | constructor].
Qed.

Lemma steps_world_in (s : Symbol) (ls : list Label) (w' : World) :
  steps (world_in t ps k s) ls w' -> exists s', w' = world_in t ps k s'.
Proof.
  intros Hsteps. remember (world_in t ps k s) as w eqn:Hw. revert s Hw.
  induction Hsteps as [w | w l w1 ls w2 Hstep _ IH]; intros s ->.
  - exists s. reflexivity.
  - apply step_world_in in Hstep as (s1 & -> & _). apply (IH s1). reflexivity.
Qed.

(** DONE and CANCELLED are never left. *)
Lemma steps_from_terminal (s : Symbol) (ls : list Label) (w' : World) :
  s = DONE \/ s = CANCELLED ->
  steps (world_in t ps k s) ls w' ->
  w' = world_in t ps k s /\ Forall (fun l => forall h, l <> TimerFires h) ls.
Proof.
  intros Hs Hsteps. remember (world_in t ps k s) as w eqn:Hw. revert Hw.
  induction Hsteps as [w | w l w1 ls w2 Hstep _ IH]; intros ->.
  - split; [reflexivity | constructor].
  - apply step_world_in in Hstep as (s1 & -> & Htr).
    assert (s1 = s /\ forall h, l <> TimerFires h) as [-> Hl].
    { destruct Hs as [-> | ->]; inversion Htr; subst; split; congruence. }
    destruct (IH eq_refl) as [-> Hls]. split; [reflexivity | constructor; assumption].
Qed.

End Instance.

Lemma steps_app (w1 w2 w3 : World) (ls1 ls2 : list Label) :
  steps w1 ls1 w2 -> steps w2 ls2 w3 -> steps w1 (ls1 ++ ls2) w3.
Proof.
  induction 1 as [w | w l wa ls wb Hstep _ IH]; intros H23; cbn.
  - exact H23.
  - econstructor; [exact Hstep | apply IH, H23].
Qed.

Lemma reachable_steps (w w' : World) (ls : list Label) :
  reachable w -> steps w ls w' -> reachable w'.
Proof.
  intros (x & ps & k & w0 & ls0 & Hc & H0) Hs.
  exists x, ps, k, w0, (ls0 ++ ls). split; [exact Hc | eapply steps_app; eassumption].
Qed.

Lemma reachable_step (w w' : World) (l : Label) :
  reachable w -> step w l w' -> reachable w'.
Proof.
  intros Hr Hs. apply (reachable_steps w w' [l] Hr). econstructor; [exact Hs | constructor].
Qed.

(** The constructor's world is the SET world. *)
Lemma created_world_in (x : Value) (ps : list PromiseState) (k : TimeoutRef) (w : World) :
  created x ps k w -> exists t, w = world_in t ps k SET.
Proof.
  unfold created, constructor. destruct w as [tm e]. cbn [this env].
  destruct (negb (Number_isInteger x)); [discriminate|].
  destruct x as [| | b | n | i | s | r | r]; try discriminate.
  destruct (Number_lessThan n one); [discriminate|].
  intros [= <- <-]. exists n. reflexivity.
Qed.

(** The reachable worlds are the four worlds of [world_in]. *)
Lemma reachable_world_in (w : World) :
  reachable w -> exists t ps k s, w = world_in t ps k s.
Proof.
  intros (x & ps & k & w0 & ls & Hc & Hs).
  apply created_world_in in Hc as (t & ->).
  apply steps_world_in in Hs as (s & ->). eauto.
Qed.

Lemma state_world_in (t : spec_float) (ps : list PromiseState) (k : TimeoutRef) (s : Symbol) :
  state (world_in t ps k s) = s.
Proof. destruct s; reflexivity. Qed.

(** Replayed scenarios are executions. *)
Lemma pending_callback_elem (h : TimeoutRef) (w : World) (cb : Callback) :
  pending_callback h w = Some cb -> exists d, (h, cb, d) ∈ timeouts (env w).
Proof.
  unfold pending_callback.
  destruct (List.filter _ _) as [|[[h' cb'] d] rest] eqn:Hf; [discriminate|].
  intros [= ->].
  assert (In (h', cb, d) (List.filter (fun r => Nat.eqb r.1.1 h) (timeouts (env w)))) as Hin
    by (rewrite Hf; left; reflexivity).
  apply filter_In in Hin as [Hin Heq]. cbn in Heq. apply Nat.eqb_eq in Heq. subst h'.
  exists d. apply list_elem_of_In. exact Hin.
Qed.

Lemma reachable_run_events (evs : list Event) (w : World) :
  reachable w -> reachable (run_events evs w).
Proof.
  revert w. induction evs as [|ev evs IH]; intros w Hr; [exact Hr|].
  cbn. apply IH. destruct ev as [| | h]; cbn.
  - eapply reachable_step; [exact Hr | apply step_start].
  - eapply reachable_step; [exact Hr | apply step_cancel].
  - destruct (pending_callback h w) as [cb|] eqn:Hp; [|exact Hr].
    apply pending_callback_elem in Hp as (d & Hin).
    eapply reachable_step; [exact Hr | eapply step_fire; exact Hin].
Qed.

Lemma reachable_timer200 : reachable timer200.
Proof.
  exists (Number two_hundred), [], 0%nat, timer200, []. split; [reflexivity | constructor].
Qed.

(** In a running instance [cancel()] completes normally and returns [null]:
    the [timercancelled] listener has set [#timerPromise] to [null] by the
    time the [return] statement reads it. *)
Lemma cancel_running_returns_null (w : World) :
  reachable w -> state w = RUNNING ->
  timerPromise (this w) <> None /\ (cancel w).1 = Normal None.
Proof.
  intros Hr Hs. apply reachable_world_in in Hr as (t & ps & k & s & ->).
  rewrite state_world_in in Hs. subst s. rewrite cancel_in_RUNNING.
  split; [discriminate | reflexivity].
Qed.

(** * Properties of the timer *)

(** C1. [cancel()] is documented to return the promise that [start()]
    returned. It does not: on [new SimpleTimer(200)], [start()] returns
    promise 0 and the timer is RUNNING with that promise as [#timerPromise];
    [cancel()] then fulfils promise 0 with CANCELLED but returns [null]. *)
Theorem cancel_after_start_returns_null :
  (start timer200).1 = Normal (Some 0%nat) /\
  state running200 = RUNNING /\
  timerPromise (this running200) = Some 0%nat /\
  (cancel running200).1 = Normal None /\
  promises (env (cancel running200).2) !! 0%nat = Some (Fulfilled CANCELLED).
Proof. repeat split. Qed.

(** C2. Idempotent join: after the first [start()] of a timer in SET, every
    [start()] made while the timer is RUNNING returns the very promise the
    first call returned, leaves the world as it is (no transition, no further
    timeout registered), and so any two such calls return the same promise,
    which is settled once for all of them. *)
Theorem start_joins_while_running (w0 w : World) (ls : list Label) :
  reachable w0 ->
  state w0 = SET ->
  steps (start w0).2 ls w ->
  state w = RUNNING ->
  exists p : PromiseRef,
    (start w0).1 = Normal (Some p) /\
    start w = (Normal (Some p), w) /\
    timeouts (env (start w).2) = timeouts (env w) /\
    promises (env w) !! p = Some Pending /\
    (forall ls' w', steps (start w0).2 ls' w' -> state w' = RUNNING ->
       (start w').1 = (start w).1).
Proof.
  intros Hr H0 Hsteps Hrun.
  apply reachable_world_in in Hr as (t & ps & k & s & ->).
  rewrite state_world_in in H0. subst s.
  rewrite start_in_SET in *. cbn [fst snd] in *.
  apply steps_world_in in Hsteps as (s & ->).
  rewrite state_world_in in Hrun. subst s.
  exists (length ps). rewrite start_in_RUNNING. cbn [fst snd].
  repeat split.
  - cbn. apply list_lookup_middle. reflexivity.
  - intros ls' w' Hsteps' Hrun'.
    apply steps_world_in in Hsteps' as (s & ->).
    rewrite state_world_in in Hrun'. subst s. rewrite start_in_RUNNING. reflexivity.
Qed.

Lemma start_joins_while_running_witness :
  exists p : PromiseRef,
    (start timer200).1 = Normal (Some p) /\
    start running200 = (Normal (Some p), running200) /\
    timeouts (env (start running200).2) = timeouts (env running200) /\
    promises (env running200) !! p = Some Pending /\
    (forall ls' w', steps (start timer200).2 ls' w' -> state w' = RUNNING ->
       (start w').1 = (start running200).1).
Proof.
  apply (start_joins_while_running timer200 running200 []).
  - exact reachable_timer200.
  - reflexivity.
  - apply steps_nil.
  - reflexivity.
Defined.

(** C3. Terminal immutability: once a timer is DONE or CANCELLED, whatever
    events follow, its state stays what it is, every [start()] throws
    ERROR_SIMPLE_TIMER_NOT_IN_SET_OR_RUNNING_STATES and every [cancel()]
    throws ERROR_SIMPLE_TIMER_NOT_RUNNING. *)
Theorem terminal_states_are_final (w w' : World) (ls : list Label) :
  reachable w ->
  state w = DONE \/ state w = CANCELLED ->
  steps w ls w' ->
  state w' = state w /\
  (start w').1 = Throw ERROR_SIMPLE_TIMER_NOT_IN_SET_OR_RUNNING_STATES /\
  (cancel w').1 = Throw ERROR_SIMPLE_TIMER_NOT_RUNNING.
Proof.
  intros Hr Hterm Hsteps.
  apply reachable_world_in in Hr as (t & ps & k & s & ->).
  rewrite state_world_in in Hterm.
  apply steps_from_terminal in Hsteps as [-> _]; [|exact Hterm].
  split; [reflexivity|].
  destruct Hterm as [-> | ->]; split; reflexivity.
Qed.

Lemma terminal_states_are_final_witness :
  let w := run_events [EvStart; EvCancel] timer200 in
  state (start w).2 = state w /\
  (start (start w).2).1 = Throw ERROR_SIMPLE_TIMER_NOT_IN_SET_OR_RUNNING_STATES /\
  (cancel (start w).2).1 = Throw ERROR_SIMPLE_TIMER_NOT_RUNNING.
Proof.
  intros w.
  apply (terminal_states_are_final w (start w).2 [CallStart (start w).1]).
  - apply reachable_run_events, reachable_timer200.
  - right. reflexivity.
  - econstructor; [apply step_start | apply steps_nil].
Defined.

(** C6. Atomicity on failure: in any world whatever, a [start()] or a
    [cancel()] that throws leaves the world exactly as it was, so the state,
    [#timerPromise] and [#timerHandle] are unchanged; in particular
    [cancel()] on a timer in SET throws ERROR_SIMPLE_TIMER_NOT_RUNNING and
    the timer stays in SET. *)
Theorem failed_call_changes_nothing (w : World) (err : Error) :
  ((start w).1 = Throw err ->
     (start w).2 = w /\
     state (start w).2 = state w /\
     timerPromise (this (start w).2) = timerPromise (this w) /\
     timerHandle (this (start w).2) = timerHandle (this w)) /\
  ((cancel w).1 = Throw err ->
     (cancel w).2 = w /\
     state (cancel w).2 = state w /\
     timerPromise (this (cancel w).2) = timerPromise (this w) /\
     timerHandle (this (cancel w).2) = timerHandle (this w)) /\
  (state w = SET ->
     cancel w = (Throw ERROR_SIMPLE_TIMER_NOT_RUNNING, w) /\ state (cancel w).2 = SET).
Proof.
  assert (forall c : M (option PromiseRef), (c w).2 = w ->
            (c w).2 = w /\ state (c w).2 = state w /\
            timerPromise (this (c w).2) = timerPromise (this w) /\
            timerHandle (this (c w).2) = timerHandle (this w)) as Hsame.
  { intros c ->. repeat split. }
  split; [|split].
  - intros Hthrow. apply Hsame. revert Hthrow.
    unfold start, bind, read, throw, state.
    destruct (timerState (this w)); cbn; intros Hthrow; try reflexivity; discriminate.
  - intros Hthrow. apply Hsame. revert Hthrow.
    unfold cancel, bind, read, throw, state.
    destruct (timerState (this w)) eqn:Hs; cbn; intros Hthrow; try reflexivity.
    exfalso. revert Hthrow.
    unfold clearTimeout, update, emit, bind, read.
    destruct (timerHandle (this w)); cbn;
      match goal with
      | |- context [run_listeners ?ls] => generalize ls
      end; intros ls; match goal with |- context [run_listeners ls ?w0] => generalize w0 end;
      induction ls as [|[r | r] ls IH]; intros w0; cbn; try discriminate; apply IH.
  - intros Hs. unfold cancel, bind, read, throw, state in *. rewrite Hs. cbn.
    split; [reflexivity | exact Hs].
Qed.

Lemma failed_call_changes_nothing_witness :
  cancel timer200 = (Throw ERROR_SIMPLE_TIMER_NOT_RUNNING, timer200) /\
  state (cancel timer200).2 = SET /\
  (cancel timer200).2 = timer200.
Proof.
  destruct (failed_call_changes_nothing timer200 ERROR_SIMPLE_TIMER_NOT_RUNNING)
    as (_ & Hcancel & Hset).
  destruct (Hset eq_refl) as [H1 H2].
  destruct (Hcancel eq_refl) as [H3 _].
  repeat split; assumption.
Defined.

(** C7. Cancel before expiry: in a running timer (its timeout is still
    pending, its promise still unsettled), [cancel()] completes normally,
    removes the timeout from the runtime's table, fulfils the promise with
    CANCELLED and leaves the timer CANCELLED; in every execution that
    follows no timeout ever fires, the state stays CANCELLED, the promise
    stays fulfilled with CANCELLED, and the only [resolve] call ever made is
    the one with CANCELLED: DONE is never delivered. *)
Theorem cancel_before_expiry (w : World) :
  reachable w ->
  state w = RUNNING ->
  exists (p : PromiseRef) (h : TimeoutRef),
    timerPromise (this w) = Some p /\
    timerHandle (this w) = Some h /\
    (exists cb d, (h, cb, d) ∈ timeouts (env w)) /\
    promises (env w) !! p = Some Pending /\
    (exists r, (cancel w).1 = Normal r) /\
    timeouts (env (cancel w).2) = [] /\
    timerHandle (this (cancel w).2) = None /\
    timerPromise (this (cancel w).2) = None /\
    state (cancel w).2 = CANCELLED /\
    promises (env (cancel w).2) !! p = Some (Fulfilled CANCELLED) /\
    (forall ls w', steps (cancel w).2 ls w' ->
       Forall (fun l => forall h', l <> TimerFires h') ls /\
       state w' = CANCELLED /\
       promises (env w') !! p = Some (Fulfilled CANCELLED) /\
       resolveCalls (env w') = [(p, CANCELLED)]).
Proof.
  intros Hr Hs. apply reachable_world_in in Hr as (t & ps & k & s & ->).
  rewrite state_world_in in Hs. subst s. rewrite cancel_in_RUNNING. cbn [fst snd].
  assert ((ps ++ [Fulfilled CANCELLED]) !! length ps = Some (Fulfilled CANCELLED)) as Hcell
    by (apply list_lookup_middle; reflexivity).
  exists (length ps), k. repeat split; try exact Hcell.
  - exists EmitTimerUp, t. cbn. apply list_elem_of_singleton. reflexivity.
  - cbn. apply list_lookup_middle. reflexivity.
  - eauto.
  - apply steps_from_terminal in H as [_ Hls]; [exact Hls | right; reflexivity].
  - apply steps_from_terminal in H as [-> _]; [reflexivity | right; reflexivity].
  - apply steps_from_terminal in H as [-> _]; [exact Hcell | right; reflexivity].
  - apply steps_from_terminal in H as [-> _]; [reflexivity | right; reflexivity].
Qed.

Lemma cancel_before_expiry_witness :
  exists (p : PromiseRef) (h : TimeoutRef),
    timerPromise (this running200) = Some p /\
    timerHandle (this running200) = Some h /\
    (exists cb d, (h, cb, d) ∈ timeouts (env running200)) /\
    promises (env running200) !! p = Some Pending /\
    (exists r, (cancel running200).1 = Normal r) /\
    timeouts (env (cancel running200).2) = [] /\
    timerHandle (this (cancel running200).2) = None /\
    timerPromise (this (cancel running200).2) = None /\
    state (cancel running200).2 = CANCELLED /\
    promises (env (cancel running200).2) !! p = Some (Fulfilled CANCELLED) /\
    (forall ls w', steps (cancel running200).2 ls w' ->
       Forall (fun l => forall h', l <> TimerFires h') ls /\
       state w' = CANCELLED /\
       promises (env w') !! p = Some (Fulfilled CANCELLED) /\
       resolveCalls (env w') = [(p, CANCELLED)]).
Proof.
  apply (cancel_before_expiry running200).
  - apply reachable_run_events, reachable_timer200.
  - reflexivity.
Defined.

(** C8. State invariant: in every world an instance can reach (after the
    constructor and after any sequence of [start()], [cancel()] and timeout
    firings), [#timerPromise] is non-null if and only if the state is
    RUNNING. *)
Theorem pending_wait_iff_running (w : World) :
  reachable w ->
  timerPromise (this w) <> None <-> state w = RUNNING.
Proof.
  intros Hr. apply reachable_world_in in Hr as (t & ps & k & s & ->).
  rewrite state_world_in. destruct s; cbn; split; congruence.
Qed.

Lemma pending_wait_iff_running_witness :
  (timerPromise (this running200) <> None <-> state running200 = RUNNING) /\
  (timerPromise (this timer200) <> None <-> state timer200 = RUNNING).
Proof.
  split.
  - apply (pending_wait_iff_running running200).
    apply reachable_run_events, reachable_timer200.
  - apply (pending_wait_iff_running timer200), reachable_timer200.
Defined.

(** C9. Expiry: when the timeout of a running timer fires, [#timerHandle]
    and [#timerPromise] become null, the state becomes DONE and the promise,
    pending until then, is fulfilled with DONE. No [resolve] call had been
    made before, this firing makes one, and no execution that follows makes
    another: the promise is resolved exactly once. *)
Theorem expiry_resolves_done_once (w w' : World) (h : TimeoutRef) :
  reachable w ->
  state w = RUNNING ->
  step w (TimerFires h) w' ->
  exists p : PromiseRef,
    timerPromise (this w) = Some p /\
    timerHandle (this w) = Some h /\
    promises (env w) !! p = Some Pending /\
    resolveCalls (env w) = [] /\
    timerHandle (this w') = None /\
    timerPromise (this w') = None /\
    state w' = DONE /\
    promises (env w') !! p = Some (Fulfilled DONE) /\
    resolveCalls (env w') = [(p, DONE)] /\
    (forall ls w'', steps w' ls w'' ->
       state w'' = DONE /\
       promises (env w'') !! p = Some (Fulfilled DONE) /\
       resolveCalls (env w'') = [(p, DONE)]).
Proof.
  intros Hr Hs Hstep. apply reachable_world_in in Hr as (t & ps & k & s & ->).
  rewrite state_world_in in Hs. subst s.
  inversion Hstep as [| | w0 h0 cb d Hin Hw]; subst.
  apply pending_in in Hin as (_ & -> & -> & ->).
  rewrite fire_in_RUNNING. cbn [fst snd].
  assert ((ps ++ [Fulfilled DONE]) !! length ps = Some (Fulfilled DONE)) as Hcell
    by (apply list_lookup_middle; reflexivity).
  exists (length ps). repeat split; try exact Hcell.
  - cbn. apply list_lookup_middle. reflexivity.
  - apply steps_from_terminal in H as [-> _]; [reflexivity | left; reflexivity].
  - apply steps_from_terminal in H as [-> _]; [exact Hcell | left; reflexivity].
  - apply steps_from_terminal in H as [-> _]; [reflexivity | left; reflexivity].
Qed.

Lemma expiry_resolves_done_once_witness :
  let w' := (fire 0%nat EmitTimerUp running200).2 in
  exists p : PromiseRef,
    timerPromise (this running200) = Some p /\
    timerHandle (this running200) = Some 0%nat /\
    promises (env running200) !! p = Some Pending /\
    resolveCalls (env running200) = [] /\
    timerHandle (this w') = None /\
    timerPromise (this w') = None /\
    state w' = DONE /\
    promises (env w') !! p = Some (Fulfilled DONE) /\
    resolveCalls (env w') = [(p, DONE)] /\
    (forall ls w'', steps w' ls w'' ->
       state w'' = DONE /\
       promises (env w'') !! p = Some (Fulfilled DONE) /\
       resolveCalls (env w'') = [(p, DONE)]).
Proof.
  intros w'.
  apply (expiry_resolves_done_once running200 w' 0%nat).
  - apply reachable_run_events, reachable_timer200.
  - reflexivity.
  - apply (step_fire running200 0%nat EmitTimerUp two_hundred).
    apply list_elem_of_singleton. reflexivity.
Defined.

(** * Further properties of the class *)

(** ** Facts that hold in every world, reachable or not *)

(** Listeners never throw and never assign [#timerTimeout]. *)
Lemma run_listeners_keeps (ls : list Listener) (w : World) :
  exists w', run_listeners ls w = (Normal tt, w') /\
             timerTimeout (this w') = timerTimeout (this w).
Proof.
  revert w. induction ls as [|[r | r] ls IH]; intros w.
  - exists w. split; reflexivity.
  - cbn [run_listeners]. unfold bind at 1.
    change (run_listener (TimerUpListener r) w)
      with (Normal tt, (run_listener (TimerUpListener r) w).2).
    destruct (IH (run_listener (TimerUpListener r) w).2) as (w' & -> & Hk).
    exists w'. split; [reflexivity | rewrite Hk; reflexivity].
  - cbn [run_listeners]. unfold bind at 1.
    change (run_listener (TimerCancelledListener r) w)
      with (Normal tt, (run_listener (TimerCancelledListener r) w).2).
    destruct (IH (run_listener (TimerCancelledListener r) w).2) as (w' & -> & Hk).
    exists w'. split; [reflexivity | rewrite Hk; reflexivity].
Qed.

Lemma emit_keeps (name : string) (w : World) :
  exists w', emit name w = (Normal tt, w') /\
             timerTimeout (this w') = timerTimeout (this w).
Proof.
  unfold emit, bind, read, update.
  match goal with |- context [run_listeners ?ls ?w0] =>
    destruct (run_listeners_keeps ls w0) as (w' & -> & Hk) end.
  exists w'. split; [reflexivity | rewrite Hk; reflexivity].
Qed.

Lemma cancel_running_normal (w : World) :
  state w = RUNNING ->
  exists w', cancel w = (Normal (timerPromise (this w')), w') /\
             timerTimeout (this w') = timerTimeout (this w).
Proof.
  intros Hs. unfold cancel, bind, read. rewrite Hs. cbn [Symbol_eqb negb].
  unfold clearTimeout, update.
  match goal with |- context [emit timercancelled ?w0] =>
    destruct (emit_keeps timercancelled w0) as (w' & -> & Hk) end.
  exists w'. split; [reflexivity|]. rewrite Hk. destruct (timerHandle (this w)); reflexivity.
Qed.

Lemma cancel_not_running (w : World) :
  state w <> RUNNING -> cancel w = (Throw ERROR_SIMPLE_TIMER_NOT_RUNNING, w).
Proof.
  intros Hs. unfold cancel, bind, read, throw.
  destruct (state w); try reflexivity. congruence.
Qed.

Lemma fire_keeps (h : TimeoutRef) (cb : Callback) (w : World) :
  exists w', fire h cb w = (Normal tt, w') /\
             timerTimeout (this w') = timerTimeout (this w).
Proof.
  unfold fire, bind, clearTimeout, update. destruct cb. cbn [run_callback].
  match goal with |- context [emit timerup ?w0] =>
    destruct (emit_keeps timerup w0) as (w' & -> & Hk) end.
  exists w'. split; [reflexivity | rewrite Hk; reflexivity].
Qed.

Lemma start_keeps (w : World) : timerTimeout (this (start w).2) = timerTimeout (this w).
Proof.
  unfold start, bind, read, state, throw. destruct (timerState (this w)); reflexivity.
Qed.

(** When [start()] throws, and what. *)
Lemma start_throw_cases (w : World) (err : Error) :
  (start w).1 = Throw err <->
  err = ERROR_SIMPLE_TIMER_NOT_IN_SET_OR_RUNNING_STATES /\
  (state w = DONE \/ state w = CANCELLED).
Proof.
  unfold start, bind, read, throw, state.
  destruct (timerState (this w)); cbn; split.
  - discriminate.
  - intros [_ [H | H]]; discriminate.
  - discriminate.
  - intros [_ [H | H]]; discriminate.
  - intros [= <-]. auto.
  - intros [-> _]. reflexivity.
  - intros [= <-]. auto.
  - intros [-> _]. reflexivity.
Qed.

(** When [cancel()] throws, and what. *)
Lemma cancel_throw_cases (w : World) (err : Error) :
  (cancel w).1 = Throw err <->
  err = ERROR_SIMPLE_TIMER_NOT_RUNNING /\ state w <> RUNNING.
Proof.
  destruct (state w) eqn:Hs.
  2: { destruct (cancel_running_normal w Hs) as (w' & -> & _). cbn.
       split; [discriminate | intros [_ H]; congruence]. }
  all: rewrite cancel_not_running by congruence; cbn; split;
    [ intros [= <-]; split; [reflexivity | discriminate]
    | intros [-> _]; reflexivity ].
Qed.

(** ** Facts about executions *)

(** What the constructor accepted. *)
Lemma created_number (x : Value) (ps : list PromiseState) (k : TimeoutRef) (w : World) :
  created x ps k w ->
  exists n, x = Number n /\ w = world_in n ps k SET /\
            integer_value n <> None /\ Number_lessThan n one = false.
Proof.
  unfold created, constructor. destruct w as [tm e]. cbn [this env].
  destruct (negb (Number_isInteger x)) eqn:Hint; [discriminate|].
  destruct x as [| | b | n | i | s | r | r]; try discriminate.
  destruct (Number_lessThan n one) eqn:Hlt; [discriminate|].
  intros [= <- <-]. exists n.
  split; [reflexivity|]. split; [reflexivity|]. split; [|exact Hlt].
  cbn in Hint. destruct (integer_value n); [discriminate | discriminate Hint].
Qed.

Lemma execution_world_in (x : Value) (ps : list PromiseState) (k : TimeoutRef)
    (ls : list Label) (w : World) :
  execution x ps k ls w ->
  exists n s, x = Number n /\ w = world_in n ps k s /\
              integer_value n <> None /\ Number_lessThan n one = false /\
              steps (world_in n ps k SET) ls w.
Proof.
  intros (w0 & Hc & Hs). apply created_number in Hc as (n & -> & -> & Hi & Hl).
  destruct (steps_world_in _ _ _ _ _ _ Hs) as (s & ->). exists n, s. auto.
Qed.

(** One step: the log of [resolve] calls grows exactly on a delivering event,
    and the instance does not go back in its life. *)
Lemma transition_accounts (t : spec_float) (ps : list PromiseState) (k : TimeoutRef)
    (s s' : Symbol) (l : Label) :
  transition s l s' ->
  (length (resolveCalls (env (world_in t ps k s))) + length (List.filter delivers [l])
     = length (resolveCalls (env (world_in t ps k s'))))%nat /\
  (stage s <= stage s')%nat.
Proof. intros Htr. inversion Htr; subst; cbn; split; lia. Qed.

Lemma steps_account (t : spec_float) (ps : list PromiseState) (k : TimeoutRef)
    (s : Symbol) (ls : list Label) (w' : World) :
  steps (world_in t ps k s) ls w' ->
  exists s', w' = world_in t ps k s' /\
    (length (resolveCalls (env (world_in t ps k s))) + length (List.filter delivers ls)
       = length (resolveCalls (env w')))%nat /\
    (stage s <= stage s')%nat.
Proof.
  intros Hsteps. remember (world_in t ps k s) as w eqn:Hw. revert s Hw.
  induction Hsteps as [w | w l w1 ls w2 Hstep _ IH]; intros s ->.
  - exists s. cbn. split; [reflexivity | split; lia].
  - apply step_world_in in Hstep as (s1 & -> & Htr).
    destruct (IH s1 eq_refl) as (s2 & -> & Hlen & Hst).
    destruct (transition_accounts t ps k s s1 l Htr) as [Hlen1 Hst1].
    exists s2. split; [reflexivity|]. split; [|lia].
    change (l :: ls) with ([l] ++ ls). rewrite List.filter_app, length_app. lia.
Qed.


Lemma execution_running200 :
  execution (Number two_hundred) [] 0%nat [CallStart (start timer200).1] running200.
Proof.
  exists timer200. split; [reflexivity|].
  econstructor; [apply step_start | apply steps_nil].
Qed.

(** ** Starting *)



(** X2. [start()] never returns [null]: whenever it completes normally, in
    any world an instance can reach, it returns a promise, that promise is
    still pending, and the instance is RUNNING. *)
Theorem start_returns_pending_promise (w : World) (r : option PromiseRef) :
  reachable w ->
  (start w).1 = Normal r ->
  exists p : PromiseRef,
    r = Some p /\
    promises (env (start w).2) !! p = Some Pending /\
    timerPromise (this (start w).2) = Some p /\
    state (start w).2 = RUNNING.
Proof.
  intros Hr. apply reachable_world_in in Hr as (t & ps & k & s & ->).
  assert ((ps ++ [Pending]) !! length ps = Some Pending) as Hcell
    by (apply list_lookup_middle; reflexivity).
  destruct s.
  - rewrite start_in_SET. intros [= <-]. exists (length ps). repeat split. exact Hcell.
  - rewrite start_in_RUNNING. intros [= <-]. exists (length ps). repeat split. exact Hcell.
  - rewrite start_in_DONE. discriminate.
  - rewrite start_in_CANCELLED. discriminate.
Qed.

Lemma start_returns_pending_promise_witness :
  exists p : PromiseRef,
    Some 0%nat = Some p /\
    promises (env (start running200).2) !! p = Some Pending /\
    timerPromise (this (start running200).2) = Some p /\
    state (start running200).2 = RUNNING.
Proof.
  apply (start_returns_pending_promise running200 (Some 0%nat)).
  - apply reachable_run_events, reachable_timer200.
  - reflexivity.
Defined.

(** X3. The promise that the first [start()] returned follows the state from
    then on: it is pending exactly while the instance is RUNNING, and once
    the instance is DONE or CANCELLED it is fulfilled with that very state.
    The instance is never in SET again. *)
Theorem promise_follows_state (w0 w : World) (ls : list Label) :
  reachable w0 ->
  state w0 = SET ->
  steps (start w0).2 ls w ->
  exists p : PromiseRef,
    (start w0).1 = Normal (Some p) /\
    state w <> SET /\
    promises (env w) !! p = Some (expected_cell (state w)).
Proof.
  intros Hr H0 Hsteps.
  apply reachable_world_in in Hr as (t & ps & k & s & ->).
  rewrite state_world_in in H0. subst s. rewrite start_in_SET in *. cbn [fst snd] in *.
  apply steps_account in Hsteps as (s & -> & _ & Hstage).
  rewrite state_world_in. exists (length ps).
  split; [reflexivity|]. split.
  - intros ->. cbn in Hstage. lia.
  - destruct s; cbn in Hstage |- *; try lia; apply list_lookup_middle; reflexivity.
Qed.

Lemma promise_follows_state_witness :
  exists p : PromiseRef,
    (start timer200).1 = Normal (Some p) /\
    state (cancel running200).2 <> SET /\
    promises (env (cancel running200).2) !! p
      = Some (expected_cell (state (cancel running200).2)).
Proof.
  apply (promise_follows_state timer200 (cancel running200).2
           [CallCancel (cancel running200).1]).
  - exact reachable_timer200.
  - reflexivity.
  - econstructor; [apply (step_cancel running200) | apply steps_nil].
Defined.

(** ** The timeout *)

(** X4. [#timerTimeout] is assigned by the constructor only: throughout every
    execution it is the Number the constructor was given, and (for a
    well-formed double) its value is an integer that is at least 1. *)
Theorem timeout_stays_whole_and_positive (x : Value) (ps : list PromiseState)
    (k : TimeoutRef) (ls : list Label) (w : World) :
  well_formed x ->
  execution x ps k ls w ->
  exists (n : spec_float) (z : Z),
    x = Number n /\
    timerTimeout (this w) = n /\
    integer_value n = Some z /\
    1 <= z.
Proof.
  intros Hwf Hex. apply execution_world_in in Hex as (n & s & -> & -> & Hi & Hl & _).
  destruct (integer_value n) as [z|] eqn:Hz; [|congruence].
  exists n, z. split; [reflexivity|]. split; [destruct s; reflexivity|].
  split; [exact Hz|].
  rewrite (lessThan_one_spec n z Hwf Hz) in Hl. apply Z.ltb_ge in Hl. exact Hl.
Qed.

Lemma timeout_stays_whole_and_positive_witness :
  exists (n : spec_float) (z : Z),
    Number two_hundred = Number n /\
    timerTimeout (this running200) = n /\
    integer_value n = Some z /\
    1 <= z.
Proof.
  apply (timeout_stays_whole_and_positive (Number two_hundred) [] 0%nat
           [CallStart (start timer200).1] running200).
  - reflexivity.
  - exact execution_running200.
Defined.

(** X5. No event changes [#timerTimeout], in any world at all (reachable or
    not, whatever listeners the emitter holds): neither [start()], nor
    [cancel()], nor a timeout firing. *)
Theorem events_keep_the_timeout (w w' : World) (l : Label) :
  step w l w' ->
  timerTimeout (this w') = timerTimeout (this w).
Proof.
  intros Hstep. inversion Hstep as [w1 Hw | w1 Hw | w1 h cb d Hin Hw]; subst.
  - apply start_keeps.
  - destruct (state w) eqn:Hs.
    2: { destruct (cancel_running_normal w Hs) as (w1 & -> & Hk). exact Hk. }
    all: rewrite cancel_not_running by congruence; reflexivity.
  - destruct (fire_keeps h cb w) as (w1 & -> & Hk). exact Hk.
Qed.

Lemma events_keep_the_timeout_witness :
  timerTimeout (this (cancel running200).2) = timerTimeout (this running200).
Proof.
  apply (events_keep_the_timeout running200 (cancel running200).2
           (CallCancel (cancel running200).1)).
  apply step_cancel.
Defined.



(** X7. The timeout can fire exactly while the instance is RUNNING: in a
    reachable world a firing event is possible if and only if the state is
    RUNNING, and a firing then leads to DONE. *)
Theorem expiry_enabled_iff_running (w : World) :
  reachable w ->
  ((exists h w', step w (TimerFires h) w') <-> state w = RUNNING) /\
  (state w = RUNNING -> exists h w', step w (TimerFires h) w' /\ state w' = DONE).
Proof.
  intros Hr. apply reachable_world_in in Hr as (t & ps & k & s & ->).
  rewrite state_world_in.
  assert (s = RUNNING ->
          exists h w', step (world_in t ps k s) (TimerFires h) w' /\ state w' = DONE) as Hfire.
  { intros ->. exists k, (fire k EmitTimerUp (world_in t ps k RUNNING)).2. split.
    - apply (step_fire _ k EmitTimerUp t). cbn. apply list_elem_of_singleton. reflexivity.
    - rewrite fire_in_RUNNING. reflexivity. }
  split; [|exact Hfire]. split.
  - intros (h & w' & Hstep). inversion Hstep as [| | w0 h0 cb d Hin Hw]; subst.
    apply pending_in in Hin as (-> & _). reflexivity.
  - intros Hs. destruct (Hfire Hs) as (h & w' & Hstep & _). eauto.
Qed.

Lemma expiry_enabled_iff_running_witness :
  ((exists h w', step running200 (TimerFires h) w') <-> state running200 = RUNNING) /\
  (state running200 = RUNNING ->
     exists h w', step running200 (TimerFires h) w' /\ state w' = DONE).
Proof.
  apply (expiry_enabled_iff_running running200).
  apply reachable_run_events, reachable_timer200.
Defined.

(** ** One result per instance *)

(** X8. Along every execution, the number of delivering events (timeout
    firings and [cancel()] calls that do not throw) equals the number of
    [resolve] calls made; it is at most one, it is one exactly when the
    instance is DONE or CANCELLED, and the value passed to [resolve] is the
    state the instance is in. *)
Theorem one_delivery_per_instance (x : Value) (ps : list PromiseState)
    (k : TimeoutRef) (ls : list Label) (w : World) :
  execution x ps k ls w ->
  length (List.filter delivers ls) = length (resolveCalls (env w)) /\
  (length (resolveCalls (env w)) <= 1)%nat /\
  (length (resolveCalls (env w)) = 1%nat <-> state w = DONE \/ state w = CANCELLED) /\
  (forall p v, (p, v) ∈ resolveCalls (env w) -> p = length ps /\ v = state w).
Proof.
  intros Hex. apply execution_world_in in Hex as (n & s & -> & -> & _ & _ & Hsteps).
  apply steps_account in Hsteps as (s' & _ & Hlen & _).
  split; [exact Hlen|]. clear Hlen s'. rewrite state_world_in.
  destruct s; cbn; (split; [lia|]); split.
  all: try (split; [lia | intros [H | H]; discriminate]).
  all: try (split; [auto | reflexivity]).
  all: intros p v Hin.
  all: try (apply elem_of_nil in Hin; contradiction).
  all: apply list_elem_of_singleton in Hin; injection Hin as -> ->; auto.
Qed.

Lemma one_delivery_per_instance_witness :
  length (List.filter delivers [CallStart (start timer200).1])
    = length (resolveCalls (env running200)) /\
  (length (resolveCalls (env running200)) <= 1)%nat /\
  (length (resolveCalls (env running200)) = 1%nat <->
     state running200 = DONE \/ state running200 = CANCELLED) /\
  (forall p v, (p, v) ∈ resolveCalls (env running200) ->
     p = length (@nil PromiseState) /\ v = state running200).
Proof.
  apply (one_delivery_per_instance (Number two_hundred) [] 0%nat
           [CallStart (start timer200).1] running200).
  exact execution_running200.
Defined.

(** ** When the methods throw *)

(** X9. [start()] throws exactly when the state is DONE or CANCELLED, and
    then it throws ERROR_SIMPLE_TIMER_NOT_IN_SET_OR_RUNNING_STATES; this
    holds in any world, whatever the other fields and the runtime hold. *)
Theorem start_throws_iff (w : World) (err : Error) :
  (start w).1 = Throw err <->
  err = ERROR_SIMPLE_TIMER_NOT_IN_SET_OR_RUNNING_STATES /\
  (state w = DONE \/ state w = CANCELLED).
Proof. apply start_throw_cases. Qed.

Lemma start_throws_iff_witness :
  (start (cancel running200).2).1 = Throw ERROR_SIMPLE_TIMER_NOT_IN_SET_OR_RUNNING_STATES.
Proof.
  apply (proj2 (start_throws_iff (cancel running200).2
                  ERROR_SIMPLE_TIMER_NOT_IN_SET_OR_RUNNING_STATES)).
  split; [reflexivity | right; reflexivity].
Defined.

(** X10. [cancel()] throws exactly when the state is not RUNNING, and then
    it throws ERROR_SIMPLE_TIMER_NOT_RUNNING; in RUNNING it never throws,
    whatever listeners the emitter holds. This holds in any world. *)
Theorem cancel_throws_iff (w : World) (err : Error) :
  (cancel w).1 = Throw err <->
  err = ERROR_SIMPLE_TIMER_NOT_RUNNING /\ state w <> RUNNING.
Proof. apply cancel_throw_cases. Qed.

Lemma cancel_throws_iff_witness :
  (cancel timer200).1 = Throw ERROR_SIMPLE_TIMER_NOT_RUNNING.
Proof.
  apply (proj2 (cancel_throws_iff timer200 ERROR_SIMPLE_TIMER_NOT_RUNNING)).
  split; [reflexivity | discriminate].
Defined.

(** ** The life of an instance *)

(** X11. Every event on a reachable world follows the state diagram: SET
    goes to RUNNING by [start()]; RUNNING stays RUNNING by [start()], goes to
    DONE when the timeout fires and to CANCELLED by [cancel()] (which returns
    [null]); every other call throws and leaves the state where it is; no
    other change of state exists. *)
Theorem events_follow_state_diagram (w w' : World) (l : Label) :
  reachable w ->
  step w l w' ->
  transition (state w) l (state w').
Proof.
  intros Hr Hstep. apply reachable_world_in in Hr as (t & ps & k & s & ->).
  apply step_world_in in Hstep as (s' & -> & Htr).
  rewrite !state_world_in. exact Htr.
Qed.

Lemma events_follow_state_diagram_witness :
  transition (state running200) (CallCancel (cancel running200).1)
    (state (cancel running200).2).
Proof.
  apply (events_follow_state_diagram running200 (cancel running200).2).
  - apply reachable_run_events, reachable_timer200.
  - apply step_cancel.
Defined.

(** X12. An instance never goes back: along any events from a reachable
    world the stage of its life (SET, then RUNNING, then DONE or CANCELLED)
    does not decrease; in particular a started instance is never in SET
    again. *)
Theorem lifecycle_never_goes_back (w w' : World) (ls : list Label) :
  reachable w ->
  steps w ls w' ->
  (stage (state w) <= stage (state w'))%nat /\
  (state w' = SET -> state w = SET).
Proof.
  intros Hr Hsteps. apply reachable_world_in in Hr as (t & ps & k & s & ->).
  apply steps_account in Hsteps as (s' & -> & _ & Hstage).
  rewrite !state_world_in. split; [exact Hstage|].
  intros ->. destruct s; cbn in Hstage; try reflexivity; lia.
Qed.

Lemma lifecycle_never_goes_back_witness :
  (stage (state running200) <= stage (state (cancel running200).2))%nat /\
  (state (cancel running200).2 = SET -> state running200 = SET).
Proof.
  apply (lifecycle_never_goes_back running200 (cancel running200).2
           [CallCancel (cancel running200).1]).
  - apply reachable_run_events, reachable_timer200.
  - econstructor; [apply step_cancel | apply steps_nil].
Defined.

(** X13. The footprint of an instance in the runtime: throughout every
    execution the promises that existed before the constructor ran are left
    as they were, at most one promise is ever created and at most one
    timeout handle is ever drawn; before [start()] the runtime is untouched. *)
Theorem instance_footprint (x : Value) (ps : list PromiseState)
    (k : TimeoutRef) (ls : list Label) (w : World) :
  execution x ps k ls w ->
  (forall i : nat, (i < length ps)%nat -> promises (env w) !! i = ps !! i) /\
  (length ps <= length (promises (env w)) <= S (length ps))%nat /\
  (k <= nextTimeout (env w) <= S k)%nat /\
  (state w = SET -> env w = idleEnv ps k).
Proof.
  intros Hex. apply execution_world_in in Hex as (n & s & -> & -> & _ & _ & _).
  rewrite state_world_in.
  destruct s; cbn; repeat split; try lia; try congruence; try discriminate.
  all: try (intros i Hi; apply lookup_app_l; exact Hi).
  all: rewrite length_app; cbn; lia.
Qed.

Lemma instance_footprint_witness :
  (forall i : nat, (i < length (@nil PromiseState))%nat ->
     promises (env running200) !! i = (@nil PromiseState) !! i) /\
  (length (@nil PromiseState) <= length (promises (env running200))
     <= S (length (@nil PromiseState)))%nat /\
  (0 <= nextTimeout (env running200) <= 1)%nat /\
  (state running200 = SET -> env running200 = idleEnv [] 0%nat).
Proof.
  apply (instance_footprint (Number two_hundred) [] 0%nat
           [CallStart (start timer200).1] running200).
  exact execution_running200.
Defined.

(** ** The errors *)

(** X14. What a caller can catch from the constructor by built-in class: on
    a well-formed input, the error thrown is a [TypeError] exactly when the
    input is not a whole number, a [RangeError] exactly when it is a whole
    number below 1, and in both cases an [Error]. *)
Theorem constructor_errors_by_builtin_class (x : Value) (e : Env) (err : Error) :
  well_formed x ->
  (constructor x e).1 = Throw err ->
  instanceOf err Builtin_Error = true /\
  (instanceOf err Builtin_TypeError = true <-> whole_number x = None) /\
  (instanceOf err Builtin_RangeError = true <->
     exists z, whole_number x = Some z /\ z < 1).
Proof.
  intros Hwf Herr. destruct (whole_number x) as [z|] eqn:Hz.
  - destruct x as [| | b | n | i | s | r | r]; try discriminate.
    cbn in Hz, Hwf. rewrite (constructor_whole e n z Hwf Hz) in Herr.
    destruct (Z.ltb_spec z 1) as [Hlt | Hge]; [|discriminate].
    cbn in Herr. injection Herr as <-. cbn.
    split; [reflexivity|]. split; [split; discriminate|].
    split; [eauto | reflexivity].
  - rewrite (constructor_not_whole e x Hz) in Herr. cbn in Herr. injection Herr as <-. cbn.
    split; [reflexivity|]. split; [split; reflexivity|].
    split; [discriminate | intros (z & Hz' & _); discriminate].
Qed.

Lemma constructor_errors_by_builtin_class_witness :
  instanceOf ERROR_SIMPLE_TIMER_TIMEOUT_TYPE_INVALID Builtin_Error = true /\
  (instanceOf ERROR_SIMPLE_TIMER_TIMEOUT_TYPE_INVALID Builtin_TypeError = true <->
     whole_number (Number minus_half) = None) /\
  (instanceOf ERROR_SIMPLE_TIMER_TIMEOUT_TYPE_INVALID Builtin_RangeError = true <->
     exists z, whole_number (Number minus_half) = Some z /\ z < 1).
Proof.
  apply (constructor_errors_by_builtin_class (Number minus_half) emptyEnv
           ERROR_SIMPLE_TIMER_TIMEOUT_TYPE_INVALID); reflexivity.
Defined.

(** X15. What [start()] and [cancel()] throw is an [Error] that is neither a
    [TypeError] nor a [RangeError], so a handler for the constructor's
    argument errors never catches a state error; this holds in any world. *)
Theorem method_errors_are_plain_errors (w : World) (err : Error) :
  (start w).1 = Throw err \/ (cancel w).1 = Throw err ->
  instanceOf err Builtin_Error = true /\
  instanceOf err Builtin_TypeError = false /\
  instanceOf err Builtin_RangeError = false.
Proof.
  intros [H | H].
  - apply start_throw_cases in H as [-> _]. repeat split.
  - apply cancel_throw_cases in H as [-> _]. repeat split.
Qed.

Lemma method_errors_are_plain_errors_witness :
  instanceOf ERROR_SIMPLE_TIMER_NOT_RUNNING Builtin_Error = true /\
  instanceOf ERROR_SIMPLE_TIMER_NOT_RUNNING Builtin_TypeError = false /\
  instanceOf ERROR_SIMPLE_TIMER_NOT_RUNNING Builtin_RangeError = false.
Proof.
  apply (method_errors_are_plain_errors timer200 ERROR_SIMPLE_TIMER_NOT_RUNNING).
  right. reflexivity.
Defined.

(** X16. The four error classes can be told apart by their [name] and also
    by their [message]: errors of two different classes have different names
    and different messages. *)
Theorem error_names_distinguish_classes (a b : Error) :
  a <> b ->
  error_name a <> error_name b /\ error_message a <> error_message b.
Proof.
  intros Hab. destruct a, b; try congruence; split; discriminate.
Qed.

Lemma error_names_distinguish_classes_witness :
  error_name ERROR_SIMPLE_TIMER_TIMEOUT_TYPE_INVALID
    <> error_name ERROR_SIMPLE_TIMER_TIMEOUT_OUT_OF_BOUNDS /\
  error_message ERROR_SIMPLE_TIMER_TIMEOUT_TYPE_INVALID
    <> error_message ERROR_SIMPLE_TIMER_TIMEOUT_OUT_OF_BOUNDS.
Proof.
  apply (error_names_distinguish_classes
           ERROR_SIMPLE_TIMER_TIMEOUT_TYPE_INVALID ERROR_SIMPLE_TIMER_TIMEOUT_OUT_OF_BOUNDS).
  discriminate.
Defined.
